(** * TOGA sanity checks: a shallow embedding of
    [modules/toga_sanity_checks.py] and its verified properties.

    The development follows the Python module function by function:
    [check_2bit_file_completeness], [check_and_write_u12_file],
    [check_isoforms_file] and [check_chains_classified], then
    [check_args_correctness] and [check_completeness].

    - Python [str] values are Rocq strings, read as code points below 256;
      [isspace] and [isnumeric] are Python's tables on that range.
    - A [set] of strings is a [gset string], a [dict] a [gmap]; [len] is
      [size]; iterating over a set, and [list(s)], follow [elements].
    - An exception is a value of [exn]; a function that can raise returns
      a [res].  A function that writes a file also returns the file store
      it leaves.
    - The file store maps a path to the text Python's text-mode stream
      delivers for the file, so every line ends in a line feed, the last
      one possibly excepted.  Opening for reading a path that is not in
      the store raises; directories and permissions are not modelled.
    - [to_log] only reports and is left out.  The two readers the module
      imports, [TwoBitFile(...).sequence_sizes()] and [read_isoforms_file],
      are parameters of the functions that call them. *)

From Stdlib Require Import Ascii.
From stdpp Require Import gmap strings list fin_maps pretty.

(** ** Python primitives used by the module *)

Module Py.

Definition TAB : ascii := "009"%char.
Definition LF : ascii := "010"%char.

(** [str.isspace] on one character: the Unicode whitespace code points
    below 256 (what [str.rstrip()] without arguments removes). *)
Definition isspace (c : ascii) : bool :=
  let n := N_of_ascii c in
  ((9 <=? n) && (n <=? 13) || (28 <=? n) && (n <=? 32)
   || (n =? 133) || (n =? 160))%N.

(** [str.isnumeric] on one character: the code points below 256 that
    carry a Unicode numeric value (the ASCII digits, the superscripts
    one to three and the three vulgar fractions). *)
Definition isnumeric_char (c : ascii) : bool :=
  let n := N_of_ascii c in
  ((48 <=? n) && (n <=? 57) || (n =? 178) || (n =? 179) || (n =? 185)
   || (188 <=? n) && (n <=? 190))%N.

Fixpoint all_chars (p : ascii → bool) (s : string) : bool :=
  match s with
  | EmptyString => true
  | String c s' => p c && all_chars p s'
  end.

(** [s.isnumeric()]: at least one character and all of them numeric. *)
Definition isnumeric (s : string) : bool :=
  match s with
  | EmptyString => false
  | _ => all_chars isnumeric_char s
  end.

(** [s.rstrip()]: drop the trailing whitespace. *)
Fixpoint rstrip (s : string) : string :=
  match s with
  | EmptyString => EmptyString
  | String c s' =>
      match rstrip s' with
      | EmptyString => if isspace c then EmptyString else String c EmptyString
      | r => String c r
      end
  end.

(** [s.split(sep)] for a one-character separator: never an empty list. *)
Fixpoint split (sep : ascii) (s : string) : list string :=
  match s with
  | EmptyString => [EmptyString]
  | String c s' =>
      if decide (c = sep) then EmptyString :: split sep s'
      else match split sep s' with
           | [] => [String c EmptyString]
           | fld :: flds => String c fld :: flds
           end
  end.

(** [sep.join(l)]. *)
Fixpoint join (sep : string) (l : list string) : string :=
  match l with
  | [] => EmptyString
  | [x] => x
  | x :: rest => x +:+ sep +:+ join sep rest
  end.

(** Iterating over a text file: each line keeps its terminating line
    feed; the last line may lack one. *)
Fixpoint readlines (s : string) : list string :=
  match s with
  | EmptyString => []
  | String c s' =>
      if decide (c = LF) then String c EmptyString :: readlines s'
      else match readlines s' with
           | [] => [String c EmptyString]
           | l :: ls => String c l :: ls
           end
  end.

Fixpoint endswith_char (c : ascii) (s : string) : bool :=
  match s with
  | EmptyString => false
  | String a EmptyString => bool_decide (a = c)
  | String _ s' => endswith_char c s'
  end.

(** [os.path.join(a, b)] (posixpath), two arguments. *)
Definition os_path_join (a b : string) : string :=
  match b with
  | String "/" _ => b
  | _ =>
      match a with
      | EmptyString => b
      | _ => if endswith_char "/" a then a +:+ b else a +:+ "/" +:+ b
      end
  end.

(** [sub in s] for strings. *)
Fixpoint startswith (p s : string) : bool :=
  match p, s with
  | EmptyString, _ => true
  | String a p', String b s' => bool_decide (a = b) && startswith p' s'
  | String _ _, EmptyString => false
  end.

Fixpoint contains (sub s : string) : bool :=
  startswith sub s ||
  match s with
  | EmptyString => false
  | String _ s' => contains sub s'
  end.

(** Exceptions the module can raise or let through. *)
Inductive exn : Type :=
| ValueError (msg : string)
| EOFError (msg : string)
| KeyError (key : string)
| IndexError
| FileNotFoundError (path : string).

Inductive res (A : Type) : Type :=
| Ok (a : A)
| Raise (e : exn).
Global Arguments Ok {A} a.
Global Arguments Raise {A} e.

Definition res_bind {A B} (m : res A) (k : A → res B) : res B :=
  match m with
  | Ok a => k a
  | Raise e => Raise e
  end.

(** [l[i]] on a list. *)
Definition getitem {A} (l : list A) (i : nat) : res A :=
  match l !! i with
  | Some x => Ok x
  | None => Raise IndexError
  end.

(** [d[k]] on a dict. *)
Definition dict_getitem {V} (d : gmap string V) (k : string) : res V :=
  match d !! k with
  | Some v => Ok v
  | None => Raise (KeyError k)
  end.

(** The file store: path to text.  [open(p, "r")] fails on a path that is
    not there; [open(p, "w")] followed by writes and [close] leaves the
    concatenation of the written chunks at [p]. *)
Abbreviation FS := (gmap string string) (only parsing).

Definition open_read (fs : FS) (path : string) : res string :=
  match fs !! path with
  | Some text => Ok text
  | None => Raise (FileNotFoundError path)
  end.

Definition write_file (fs : FS) (path : string) (chunks : list string) : FS :=
  <[path := join "" chunks]> fs.

End Py.
Import Py.

(** [x ← m; k] runs [m] and hands its value to [k]; a raised exception
    ends the computation. *)
Global Instance res_mret : MRet res := @Ok.
Global Instance res_mbind : MBind res := λ A B k m, res_bind m k.

(** ** Module constants *)

Definition U12_FILE_COLS : nat := 3.
Definition U12_AD_FIELD : gset string := {["A"; "D"]}.

(** ** [check_and_write_u12_file] *)

Module U12.

(** The four messages of the function, as their f-strings build them. *)
Definition msg_fields (u12_arg : string) (num got : nat) : string :=
  "Error! U12 file " +:+ u12_arg +:+ " line " +:+ pretty num
  +:+ " is corrupted, 3 fields expected; Got " +:+ pretty got
  +:+ "; please note that a tab-separated file expected".

Definition msg_exon (u12_arg : string) (num : nat) (exon_num : string) : string :=
  "Error! U12 file " +:+ u12_arg +:+ " line " +:+ pretty num
  +:+ " is corrupted, field 2 value is " +:+ exon_num
  +:+ "; This field must contain a numeric value (exon number).".

Definition msg_acc_don (u12_arg : string) (num : nat) (acc_don : string) : string :=
  "Error! U12 file " +:+ u12_arg +:+ " line " +:+ pretty num
  +:+ " is corrupted, field 3 value is " +:+ acc_don
  +:+ "; This field could have either A or D value.".

Definition msg_empty (u12_arg : string) : string :=
  "Error! No lines left in the " +:+ u12_arg +:+ " file after filter."
  +:+ "Please check that transcript IDs in this file and input bed file are consistent".

(** The body of [for num, line in enumerate(f, 1)]: [num] is the number
    of the first line of [lines], [filt_lines] the lines kept so far. *)
Fixpoint scan (u12_arg : string) (t_in_bed : gset string)
    (num : nat) (lines : list string) (filt_lines : list string)
    : res (list string) :=
  match lines with
  | [] => Ok filt_lines
  | line :: rest =>
      let line_data := split TAB (rstrip line) in
      if negb (length line_data =? U12_FILE_COLS) then
        Raise (ValueError (msg_fields u12_arg num (length line_data)))
      else
        trans_id ← getitem line_data 0;
        if negb (bool_decide (trans_id ∈ t_in_bed)) then
          scan u12_arg t_in_bed (S num) rest filt_lines
        else
          exon_num ← getitem line_data 1;
          if negb (isnumeric exon_num) then
            Raise (ValueError (msg_exon u12_arg num exon_num))
          else
            acc_don ← getitem line_data 2;
            if negb (bool_decide (acc_don ∈ U12_AD_FIELD)) then
              Raise (ValueError (msg_acc_don u12_arg num acc_don))
            else
              scan u12_arg t_in_bed (S num) rest (filt_lines ++ [line])
  end.

(** The function: its result and the file store it leaves. *)
Definition check_and_write_u12_file (u12_arg : option string)
    (t_in_bed : gset string) (temp_wd : string) (fs : FS)
    : res (option string) * FS :=
  match u12_arg with
  | None => (Ok None, fs)
  | Some u12_arg =>
      let u12_saved_file := os_path_join temp_wd "u12_data.txt" in
      match open_read fs u12_arg with
      | Raise e => (Raise e, fs)
      | Ok f =>
          match scan u12_arg t_in_bed 1 (readlines f) [] with
          | Raise e => (Raise e, fs)
          | Ok filt_lines =>
              if length filt_lines =? 0 then
                (Raise (ValueError (msg_empty u12_arg)), fs)
              else
                (Ok (Some u12_saved_file),
                 write_file fs u12_saved_file [join "" filt_lines])
          end
      end
  end.

End U12.

(** ** [check_2bit_file_completeness] *)

Module TwoBit.
Section with_reader.

(** [TwoBitFile(path).sequence_sizes()] of the twobitreader package: the
    name-to-length index of the file, or the exception reading raised. *)
Variable sequence_sizes : string → res (gmap string Z).

Definition msg_missing (two_bit_file chrom_file missing_str : string) : string :=
  "Error! 2bit file: " +:+ two_bit_file +:+ "; chain/bed file: " +:+ chrom_file
  +:+ "; Some chromosomes present in the chain/bed file are not found in the "
  +:+ "Two bit file. First <=100: " +:+ missing_str.

Definition msg_sizes (two_bit_file chrom_file chrom : string)
    (twobit_seq_len comp_file_seq_len : Z) : string :=
  "Error! 2bit file: " +:+ two_bit_file +:+ "; chain_file: " +:+ chrom_file
  +:+ " Chromosome: " +:+ chrom +:+ "; Sizes don't match! "
  +:+ "Size in twobit: " +:+ pretty twobit_seq_len
  +:+ "; size in chain: " +:+ pretty comp_file_seq_len.

(** The body of [for chrom in intersection]. *)
Fixpoint check_sizes (two_bit_file chrom_file : string)
    (twobit_seq_to_size : gmap string Z)
    (chroms_sizes : gmap string (option Z)) (chroms : list string)
    : res unit :=
  match chroms with
  | [] => Ok ()
  | chrom :: rest =>
      twobit_seq_len ← dict_getitem twobit_seq_to_size chrom;
      comp_file_seq_len ← dict_getitem chroms_sizes chrom;
      match comp_file_seq_len with
      | None => check_sizes two_bit_file chrom_file twobit_seq_to_size chroms_sizes rest
      | Some len =>
          if bool_decide (twobit_seq_len = len) then
            check_sizes two_bit_file chrom_file twobit_seq_to_size chroms_sizes rest
          else
            Raise (ValueError
              (msg_sizes two_bit_file chrom_file chrom twobit_seq_len len))
      end
  end.

Definition check_2bit_file_completeness (two_bit_file : string)
    (chroms_sizes : gmap string (option Z)) (chrom_file : string)
    : res unit :=
  twobit_seq_to_size ←
    match sequence_sizes two_bit_file with
    | Raise (EOFError err) => Raise (ValueError err)
    | r => r
    end;
  let twobit_sequences : gset string := dom twobit_seq_to_size in
  let check_chroms : gset string := dom chroms_sizes in
  let intersection := twobit_sequences ∩ check_chroms in
  let chroms_not_in_2bit := check_chroms ∖ twobit_sequences in
  if 0 <? size chroms_not_in_2bit then
    let missing_top_100 := take 100 (elements chroms_not_in_2bit) in
    let missing_str := join (String LF "") missing_top_100 in
    Raise (ValueError (msg_missing two_bit_file chrom_file missing_str))
  else
    check_sizes two_bit_file chrom_file twobit_seq_to_size chroms_sizes
      (elements intersection).

End with_reader.
End TwoBit.

(** ** [check_isoforms_file] *)

(** What [read_isoforms_file] returns: the gene-to-isoforms dict, the
    isoform-to-gene dict and the two fields of the header row. *)
Abbreviation parsed_isoforms :=
  (gmap string (list string) * gmap string string * (string * string))%type.

Module Isoforms.
Section with_parser.

(** [read_isoforms_file] of [modules.common], which parses the file; the
    function uses the isoform-to-gene dict and the header of its answer. *)
Variable read_isoforms_file : string → FS → res parsed_isoforms.

Definition msg_incomplete (count : nat) (extra_t_list : string) : string :=
  "Error! There are " +:+ pretty count +:+ " transcripts in the bed "
  +:+ "file absent in the isoforms file! "
  +:+ "There are the transcripts (first 100):" +:+ String LF "" +:+ extra_t_list.

Definition row (gene trans : string) : string :=
  gene +:+ String TAB "" +:+ trans +:+ String LF "".

(** The body of [for trans in t_in_both]: [written] is what [f.write]
    has put into the open file so far. *)
Fixpoint write_rows (isoform_to_gene : gmap string string)
    (transs : list string) (written : list string)
    : res unit * list string :=
  match transs with
  | [] => (Ok (), written)
  | trans :: rest =>
      match dict_getitem isoform_to_gene trans with
      | Raise e => (Raise e, written)
      | Ok gene => write_rows isoform_to_gene rest (written ++ [row gene trans])
      end
  end.

Definition check_isoforms_file (isoforms_arg : option string)
    (t_in_bed : gset string) (temp_wd : string) (fs : FS)
    : res (option string) * FS :=
  match isoforms_arg with
  | None | Some EmptyString => (Ok None, fs)
  | Some isoforms_arg =>
      match read_isoforms_file isoforms_arg fs with
      | Raise e => (Raise e, fs)
      | Ok (_, isoform_to_gene, header) =>
          let header_maybe_gene := header.1 in
          let header_maybe_trans := header.2 in
          let isoforms_file := os_path_join temp_wd "isoforms.tsv" in
          let t_in_i : gset string := dom isoform_to_gene in
          let u_in_b := t_in_bed ∖ t_in_i in
          if negb (size u_in_b =? 0) then
            let extra_t_list := join (String LF "") (take 100 (elements u_in_b)) in
            (Raise (ValueError (msg_incomplete (size u_in_b) extra_t_list)), fs)
          else
            let t_in_both := t_in_bed ∩ t_in_i in
            let skip_header := bool_decide (header_maybe_trans ∈ t_in_bed) in
            let written :=
              if negb skip_header then [row header_maybe_gene header_maybe_trans]
              else [] in
            match write_rows isoform_to_gene (elements t_in_both) written with
            | (Raise e, written) => (Raise e, write_file fs isoforms_file written)
            | (Ok _, written) =>
                (Ok (Some isoforms_file), write_file fs isoforms_file written)
            end
      end
  end.

End with_parser.
End Isoforms.

(** ** [check_chains_classified] *)

Module Chains.

Definition msg_empty (chain_results_df : string) : string :=
  "Chain results file " +:+ chain_results_df +:+ " is empty! Abort.".

(** [sum(1 for _ in islice(f, 2)) > 1]. *)
Definition has_more_than_one_line (file_path : string) (fs : FS) : res bool :=
  f ← open_read fs file_path;
  Ok (1 <? length (take 2 (readlines f))).

Definition check_chains_classified (chain_results_df : string) (fs : FS)
    : res unit :=
  is_complete ← has_more_than_one_line chain_results_df fs;
  if negb is_complete then Raise (ValueError (msg_empty chain_results_df))
  else Ok ().

End Chains.

(** ** Vocabulary of the statements *)

(** What the U12 loop computes for a line: its tab-separated fields after
    [rstrip], and the three fields by position. *)
Definition fields (line : string) : list string := split TAB (rstrip line).
Definition field (i : nat) (line : string) : string :=
  default "" (fields line !! i).
Definition transcript_id (line : string) : string := field 0 line.

(** A line that splits into three fields, the second numeric and the third
    an [A] or a [D]. *)
Definition well_formed (line : string) : Prop :=
  length (fields line) = 3
  ∧ isnumeric (field 1 line) = true
  ∧ field 2 line ∈ U12_AD_FIELD.

(** A line the loop goes past without raising: three fields, and valid
    second and third fields if its transcript is in the bed file. *)
Definition passes (t_in_bed : gset string) (line : string) : Prop :=
  length (fields line) = 3
  ∧ (transcript_id line ∈ t_in_bed →
     isnumeric (field 1 line) = true ∧ field 2 line ∈ U12_AD_FIELD).

(** The lines of [lines] whose transcript is in the bed file, in order. *)
Definition retained (t_in_bed : gset string) (lines : list string) : list string :=
  filter (λ line, transcript_id line ∈ t_in_bed) lines.

(** No line feed inside; a terminated line; a last line without its line feed. *)
Fixpoint no_lf (s : string) : Prop :=
  match s with
  | EmptyString => True
  | String c s' => c ≠ LF ∧ no_lf s'
  end.

Definition terminated (s : string) : Prop :=
  ∃ b, s = b +:+ String LF "" ∧ no_lf b.

Definition unterminated (s : string) : Prop := s ≠ "" ∧ no_lf s.

(** The shape of what iterating over a file yields: terminated lines, the
    last one possibly unterminated. *)
Fixpoint lines_wf (ls : list string) : Prop :=
  match ls with
  | [] => True
  | s :: rest =>
      match rest with
      | [] => terminated s ∨ unterminated s
      | _ => terminated s ∧ lines_wf rest
      end
  end.

(** Where the filtered U12 lines go. *)
Definition u12_saved_file (temp_wd : string) : string :=
  os_path_join temp_wd "u12_data.txt".

(** The verdict of the loop body on one line, by cases. *)
Inductive verdict (T : gset string) (line : string) : Type :=
| bad_fields : length (fields line) ≠ 3 → verdict T line
| skipped : length (fields line) = 3 → transcript_id line ∉ T → verdict T line
| bad_exon : length (fields line) = 3 → transcript_id line ∈ T →
    isnumeric (field 1 line) = false → verdict T line
| bad_acc_don : length (fields line) = 3 → transcript_id line ∈ T →
    isnumeric (field 1 line) = true → field 2 line ∉ U12_AD_FIELD →
    verdict T line
| kept : length (fields line) = 3 → transcript_id line ∈ T →
    isnumeric (field 1 line) = true → field 2 line ∈ U12_AD_FIELD →
    verdict T line.

(** A chromosome of the size map that the index lacks; a chromosome of
    both whose known length in the size map is not the index's. *)
Definition missing_chromosome (idx : gmap string Z)
    (chroms_sizes : gmap string (option Z)) : Prop :=
  ∃ c, c ∈ dom chroms_sizes ∧ c ∉ dom idx.

Definition length_mismatch (idx : gmap string Z)
    (chroms_sizes : gmap string (option Z)) : Prop :=
  ∃ c n k, idx !! c = Some n ∧ chroms_sizes !! c = Some (Some k) ∧ n ≠ k.

(** Where the filtered isoforms go; the header line the run writes; a row
    of the mapping. *)
Definition isoforms_file (temp_wd : string) : string :=
  os_path_join temp_wd "isoforms.tsv".

Definition header_rows (t_in_bed : gset string) (header : string * string)
    : list string :=
  if decide (header.2 ∈ t_in_bed) then [] else [Isoforms.row header.1 header.2].



(** ** Sample inputs *)

(** A line of tab-separated fields with its line feed. *)
Definition line_of (flds : list string) : string :=
  join (String TAB "") flds +:+ String LF "".

Definition u12_sample : string :=
  line_of ["tX"; "7"; "D"] +:+ line_of ["t1"; "5"; "A"] +:+ line_of ["t2"; "12"; "D"].

(** A malformed record of a transcript outside the bed file, then a valid
    record of one inside. *)
Definition u12_foreign_junk : string :=
  line_of ["tX"; "abc"; "Z"] +:+ line_of ["t1"; "5"; "A"].

(** A malformed record of a transcript of the bed file in second place. *)
Definition u12_bad_exon : string :=
  line_of ["t2"; "3"; "A"] +:+ line_of ["t1"; "x5"; "A"].

Definition isoforms_sample : gmap string string :=
  {["t1" := "g1"; "t2" := "g2"; "t3" := "g3"; "t4" := "g4"]}.

Definition isoforms_short : gmap string string :=
  {["t1" := "g1"; "t2" := "g2"]}.

Definition bed_transcripts : gset string := {["t1"; "t2"; "t3"]}.

Definition three_unknown : gmap string (option Z) :=
  {["chrX" := None; "chrY" := None; "chrM" := None]}.

(** ** [check_args_correctness] and [check_completeness] *)

(** [os.path.isfile(path)]: the store holds regular files only. *)
Definition os_path_isfile (fs : FS) (path : string) : bool :=
  bool_decide (is_Some (fs !! path)).

(** Both functions report through [toga_cls.die], a method of the pipeline
    object that this module does not define.  A run is modelled by the
    messages [die] is called with, in call order; should [die] not return,
    the first of them is the one that happens. *)

Module Args.

(** The attributes of [args] the function reads; an option left unset is
    [None]. *)
Record args : Type := {
  cesar_buckets : option string;
  chain_input : string;
  bed_input : string
}.

Definition msg_buckets (value : string) : string :=
  "Error! --cesar_buckets value " +:+ value +:+ " is incorrect" +:+ String LF ""
  +:+ "Expected comma-separated list of integers".

Definition msg_chain (path : string) : string :=
  "Error! Chain file " +:+ path +:+ " does not exist!".

Definition msg_bed (path : string) : string :=
  "Error! Bed file " +:+ path +:+ " does not exist!".

(** The [if args.cesar_buckets:] block. *)
Definition check_buckets (a : args) : list string :=
  match cesar_buckets a with
  | None | Some EmptyString => []
  | Some value =>
      let comma_sep := split "," value in
      let all_numeric := map isnumeric comma_sep in
      if existsb (λ x, negb x) all_numeric then [msg_buckets value] else []
  end.

Definition check_args_correctness (a : args) (fs : FS) : list string :=
  check_buckets a
  ++ (if negb (os_path_isfile fs (chain_input a)) then [msg_chain (chain_input a)]
      else [])
  ++ (if negb (os_path_isfile fs (bed_input a)) then [msg_bed (bed_input a)]
      else []).

End Args.

Module Completeness.






End Completeness.

(** A string that is numeric pieces joined by commas. *)
Definition comma_list_of_numbers (s : string) : Prop :=
  ∃ pieces, pieces ≠ [] ∧ Forall (λ p, isnumeric p = true) pieces
            ∧ s = join "," pieces.

(** No occurrence of the character in the string. *)
Fixpoint char_free (c : ascii) (s : string) : Prop :=
  match s with
  | EmptyString => True
  | String a s' => a ≠ c ∧ char_free c s'
  end.


Definition sample_args : Args.args :=
  {| Args.cesar_buckets := Some "2,5,10,50";
     Args.chain_input := "in.chain";
     Args.bed_input := "in.bed" |}.



(** ** Proof steps *)

(** One turn of the U12 loop, given its equation and the facts about the
    line in the context. *)
Ltac scan_step_with eqn :=
  rewrite eqn;
  repeat match goal with
  | H : length (fields ?l) = 3 |- context [length (fields ?l) =? 3] =>
      rewrite (proj2 (Nat.eqb_eq _ _) H); simpl negb; cbv iota
  | H : length (fields ?l) ≠ 3 |- context [length (fields ?l) =? 3] =>
      rewrite (proj2 (Nat.eqb_neq _ _) H); simpl negb; cbv iota
  | H : ?x ∈ ?X |- context [bool_decide (?x ∈ ?X)] =>
      rewrite (bool_decide_eq_true_2 _ H); simpl negb; cbv iota
  | H : ?x ∉ ?X |- context [bool_decide (?x ∈ ?X)] =>
      rewrite (bool_decide_eq_false_2 _ H); simpl negb; cbv iota
  | H : isnumeric ?s = _ |- context [isnumeric ?s] =>
      rewrite H; simpl negb; cbv iota
  end.

(** Facts about the lines of a sample file, by evaluation. *)
Ltac solve_lines :=
  repeat first
    [ apply Forall_nil_2
    | apply Forall_cons_2
    | compute_done
    | split ].

(** ** Strings and lines *)

Lemma append_cons (c : ascii) (a b : string) :
  String c a +:+ b = String c (a +:+ b).
Proof. reflexivity. Qed.

Lemma append_nil_l (s : string) : "" +:+ s = s.
Proof. reflexivity. Qed.

Lemma append_nil_r (s : string) : s +:+ "" = s.
Proof. induction s as [|c s IH]; [done|]. by rewrite append_cons, IH. Qed.

Lemma append_assoc (a b c : string) : (a +:+ b) +:+ c = a +:+ (b +:+ c).
Proof. induction a as [|x a IH]; [done|]. by rewrite !append_cons, IH. Qed.

Lemma join_empty_cons (x : string) (l : list string) :
  join "" (x :: l) = x +:+ join "" l.
Proof. destruct l; simpl; [by rewrite append_nil_r | by rewrite append_nil_l]. Qed.

Lemma join_empty_app (l1 l2 : list string) :
  join "" (l1 ++ l2) = join "" l1 +:+ join "" l2.
Proof.
  induction l1 as [|x l1 IH]; [done|].
  rewrite <- app_comm_cons, !join_empty_cons, IH. by rewrite append_assoc.
Qed.

Lemma readlines_terminated (b rest : string) :
  no_lf b → readlines (b +:+ String LF rest) = (b +:+ String LF "") :: readlines rest.
Proof.
  induction b as [|c b IH]; intros Hb.
  - by rewrite !append_nil_l.
  - destruct Hb as [Hc Hb]. rewrite !append_cons. simpl.
    rewrite decide_False; [|done]. by rewrite IH.
Qed.

Lemma readlines_unterminated (s : string) :
  unterminated s → readlines s = [s].
Proof.
  intros [Hne Hs]. induction s as [|c s IH]; [done|].
  destruct Hs as [Hc Hs]. simpl. rewrite decide_False; [|done].
  destruct s as [|d s]; [done|]. by rewrite IH.
Qed.

Lemma terminated_cons (c : ascii) (s : string) :
  c ≠ LF → terminated s → terminated (String c s).
Proof. intros Hc (b & -> & Hb). by exists (String c b). Qed.

Lemma unterminated_cons (c : ascii) (s : string) :
  c ≠ LF → unterminated s → unterminated (String c s).
Proof. intros Hc [_ Hs]. by split. Qed.

Lemma readlines_wf (s : string) : lines_wf (readlines s).
Proof.
  induction s as [|c s IH]; [done|]. simpl. case_decide as Hc.
  - subst c. assert (terminated (String LF "")) by (by exists "").
    destruct (readlines s); simpl; auto.
  - destruct (readlines s) as [|l ls]; simpl.
    + right. by split.
    + simpl in IH. destruct ls.
      * destruct IH; [left|right];
          auto using terminated_cons, unterminated_cons.
      * destruct IH. auto using terminated_cons.
Qed.

Lemma lines_wf_tail (x : string) (ls : list string) :
  lines_wf (x :: ls) → lines_wf ls.
Proof. destruct ls; [done|]. by intros [_ ?]. Qed.

Lemma lines_wf_sublist (l1 l2 : list string) :
  sublist l1 l2 → lines_wf l2 → lines_wf l1.
Proof.
  induction 1 as [|x l1 l2 Hsub IH|x l1 l2 Hsub IH]; intros Hwf; [done| |].
  - pose proof (IH (lines_wf_tail _ _ Hwf)) as Hl1.
    destruct l2 as [|y l2].
    + apply sublist_nil_r in Hsub as ->. done.
    + destruct Hwf as [Hx _]. destruct l1; simpl; auto.
  - eauto using lines_wf_tail.
Qed.

Lemma readlines_join (ls : list string) :
  lines_wf ls → readlines (join "" ls) = ls.
Proof.
  induction ls as [|x ls IH]; [done|]. intros Hwf.
  rewrite join_empty_cons.
  assert (terminated x → readlines (x +:+ join "" ls) = x :: readlines (join "" ls))
    as Hterm.
  { intros (b & -> & Hb). rewrite append_assoc. simpl. by apply readlines_terminated. }
  destruct ls as [|y ls].
  - destruct Hwf as [Hx|Hx].
    + by rewrite Hterm.
    + simpl. rewrite append_nil_r. by apply readlines_unterminated.
  - destruct Hwf as [Hx Hwf]. rewrite Hterm; [|done]. by rewrite IH.
Qed.

(** ** The U12 loop *)

Lemma scan_cons (p : string) (T : gset string) (n : nat) (line : string)
    (rest acc : list string) :
  U12.scan p T n (line :: rest) acc =
    if negb (length (fields line) =? 3) then
      Raise (ValueError (U12.msg_fields p n (length (fields line))))
    else if negb (bool_decide (transcript_id line ∈ T)) then
      U12.scan p T (S n) rest acc
    else if negb (isnumeric (field 1 line)) then
      Raise (ValueError (U12.msg_exon p n (field 1 line)))
    else if negb (bool_decide (field 2 line ∈ U12_AD_FIELD)) then
      Raise (ValueError (U12.msg_acc_don p n (field 2 line)))
    else U12.scan p T (S n) rest (acc ++ [line]).
Proof.
  unfold transcript_id, field, fields. simpl.
  destruct (split TAB (rstrip line)) as [|a [|b [|c [|d l]]]]; reflexivity.
Qed.

Lemma judge (T : gset string) (line : string) : verdict T line.
Proof.
  destruct (decide (length (fields line) = 3)) as [Hlen|Hlen];
    [|by apply bad_fields].
  destruct (decide (transcript_id line ∈ T)) as [Hin|Hin];
    [|by apply skipped].
  destruct (isnumeric (field 1 line)) eqn:Hnum; [|by apply bad_exon].
  destruct (decide (field 2 line ∈ U12_AD_FIELD)); [by apply kept|by apply bad_acc_don].
Qed.

Lemma retained_cons_in (T : gset string) (line : string) (lines : list string) :
  transcript_id line ∈ T → retained T (line :: lines) = line :: retained T lines.
Proof. intros H. unfold retained. by rewrite filter_cons_True. Qed.

Lemma retained_cons_out (T : gset string) (line : string) (lines : list string) :
  transcript_id line ∉ T → retained T (line :: lines) = retained T lines.
Proof. intros H. unfold retained. by rewrite filter_cons_False. Qed.

Lemma scan_ok_iff (p : string) (T : gset string) (lines : list string) :
  ∀ (n : nat) (acc out : list string),
    U12.scan p T n lines acc = Ok out
    ↔ Forall (passes T) lines ∧ out = acc ++ retained T lines.
Proof.
  induction lines as [|line lines IH]; intros n acc out.
  - simpl. unfold retained. rewrite filter_nil, app_nil_r.
    split; [intros [= ->]; auto | intros [_ ->]; done].
  - rewrite Forall_cons. unfold passes at 1.
    destruct (judge T line) as
      [Hlen|Hlen Hout|Hlen Hin Hnum|Hlen Hin Hnum Had|Hlen Hin Hnum Had];
      scan_step_with scan_cons.
    + split; [done|]. by intros [[[? _] _] _].
    + rewrite IH, retained_cons_out by done. tauto.
    + split; [done|]. intros [[[_ Hp] _] _]. destruct (Hp Hin); congruence.
    + split; [done|]. intros [[[_ Hp] _] _]. destruct (Hp Hin); done.
    + rewrite IH, retained_cons_in by done.
      rewrite <- app_assoc. simpl. tauto.
Qed.

(** Whatever the loop raises is a [ValueError]: the indexing of
    [line_data] is guarded by the length test. *)
Lemma scan_raise (p : string) (T : gset string) (lines : list string) :
  ∀ (n : nat) (acc : list string) (e : exn),
    U12.scan p T n lines acc = Raise e → ∃ msg, e = ValueError msg.
Proof.
  induction lines as [|line lines IH]; intros n acc e; [done|].
  destruct (judge T line) as
    [Hlen|Hlen Hout|Hlen Hin Hnum|Hlen Hin Hnum Had|Hlen Hin Hnum Had];
    scan_step_with scan_cons; eauto; intros [= <-]; eauto.
Qed.


(** ** [check_and_write_u12_file]: what a run does *)

Lemma well_formed_passes (T : gset string) (line : string) :
  well_formed line → passes T line.
Proof. intros (? & ? & ?). by split. Qed.

Lemma retained_in (T : gset string) (lines : list string) (line : string) :
  line ∈ retained T lines ↔ line ∈ lines ∧ transcript_id line ∈ T.
Proof. unfold retained. rewrite list_elem_of_filter. tauto. Qed.

Lemma retained_nonempty (T : gset string) (lines : list string) :
  Exists (λ line, transcript_id line ∈ T) lines → retained T lines ≠ [].
Proof.
  intros (line & Hin & Hid)%Exists_exists Hnil.
  assert (line ∈ retained T lines) as Hr by (by apply retained_in).
  rewrite Hnil in Hr. by apply elem_of_nil in Hr.
Qed.

Lemma retained_empty (T : gset string) (lines : list string) :
  Forall (λ line, transcript_id line ∉ T) lines → retained T lines = [].
Proof.
  induction 1 as [|line lines Hout _ IH]; [done|].
  by rewrite retained_cons_out.
Qed.

Lemma length_zero_eqb {A} (l : list A) : (length l =? 0) = bool_decide (l = []).
Proof. by destruct l. Qed.

(** A run on a file whose lines all pass. *)
Lemma u12_run_passes (fs : FS) (path text : string) (T : gset string)
    (wd : string) :
  fs !! path = Some text →
  Forall (passes T) (readlines text) →
  U12.check_and_write_u12_file (Some path) T wd fs =
    if bool_decide (retained T (readlines text) = []) then
      (Raise (ValueError (U12.msg_empty path)), fs)
    else
      (Ok (Some (u12_saved_file wd)),
       <[u12_saved_file wd := join "" (retained T (readlines text))]> fs).
Proof.
  intros Hfs Hpass. unfold U12.check_and_write_u12_file, open_read.
  rewrite Hfs.
  assert (U12.scan path T 1 (readlines text) [] = Ok (retained T (readlines text)))
    as -> by (by apply scan_ok_iff).
  rewrite length_zero_eqb. by case_bool_decide.
Qed.

(** A successful run, read backwards. *)
Lemma u12_run_success (u12_arg : option string) (T : gset string)
    (wd : string) (fs fs' : FS) (out : string) :
  U12.check_and_write_u12_file u12_arg T wd fs = (Ok (Some out), fs') →
  ∃ path text,
    u12_arg = Some path ∧ fs !! path = Some text
    ∧ Forall (passes T) (readlines text)
    ∧ retained T (readlines text) ≠ []
    ∧ out = u12_saved_file wd
    ∧ fs' = <[out := join "" (retained T (readlines text))]> fs.
Proof.
  unfold U12.check_and_write_u12_file, open_read.
  destruct u12_arg as [path|]; [|done].
  destruct (fs !! path) as [text|] eqn:Hfs; [|done].
  destruct (U12.scan path T 1 (readlines text) []) as [kept|e] eqn:Hscan; [|done].
  apply scan_ok_iff in Hscan as [Hpass ->]. simpl app.
  rewrite length_zero_eqb. case_bool_decide as Hne; [done|].
  intros [= <- <-]. by exists path, text.
Qed.

(** A failing run leaves the store alone and raises a [ValueError], or the
    [FileNotFoundError] of [open]. *)
Lemma u12_run_failure (u12_arg : option string) (T : gset string)
    (wd : string) (fs fs' : FS) (e : exn) :
  U12.check_and_write_u12_file u12_arg T wd fs = (Raise e, fs') →
  fs' = fs ∧ ((∃ msg, e = ValueError msg) ∨ (∃ path, e = FileNotFoundError path)).
Proof.
  unfold U12.check_and_write_u12_file, open_read.
  destruct u12_arg as [path|]; [|done].
  destruct (fs !! path) as [text|] eqn:Hfs; [|intros [= <- <-]; eauto].
  destruct (U12.scan path T 1 (readlines text) []) as [kept|e'] eqn:Hscan.
  - destruct (length kept =? 0); intros [= <- <-]; eauto.
  - intros [= <- <-]. apply scan_raise in Hscan. eauto.
Qed.

(** ** [check_and_write_u12_file]: theorems *)



(** What the sample run leaves in the output file. *)
Example u12_sample_output :
  U12.check_and_write_u12_file (Some "in.u12") {["t1"; "t2"]} "wd"
    {["in.u12" := u12_sample]} =
    (Ok (Some "wd/u12_data.txt"),
     <["wd/u12_data.txt" := line_of ["t1"; "5"; "A"] +:+ line_of ["t2"; "12"; "D"]]>
       {["in.u12" := u12_sample]}).
Proof. vm_compute. reflexivity. Qed.




(** C6. A file whose lines are all well formed but none of a transcript of
    the bed file, the empty file among them, makes the run raise the
    nothing-left error; no output file is written. *)
Theorem u12_nothing_retained_raises (fs : FS) (path text : string)
    (T : gset string) (wd : string) :
  fs !! path = Some text →
  Forall well_formed (readlines text) →
  Forall (λ line, transcript_id line ∉ T) (readlines text) →
  U12.check_and_write_u12_file (Some path) T wd fs
  = (Raise (ValueError (U12.msg_empty path)), fs).
Proof.
  intros Hfs Hwf Hout.
  rewrite (u12_run_passes fs path text T wd Hfs).
  - rewrite bool_decide_eq_true_2; [done|]. by apply retained_empty.
  - eapply Forall_impl; [exact Hwf|]. apply well_formed_passes.
Qed.

Lemma u12_nothing_retained_raises_witness :
  U12.check_and_write_u12_file (Some "in.u12") {["t9"]} "wd"
    {["in.u12" := u12_sample]}
  = (Raise (ValueError (U12.msg_empty "in.u12")), {["in.u12" := u12_sample]}).
Proof.
  apply (u12_nothing_retained_raises {["in.u12" := u12_sample]} "in.u12"
           u12_sample {["t9"]} "wd").
  - reflexivity.
  - solve_lines.
  - solve_lines.
Defined.

(** The empty file is one such file: it has no line at all. *)
Lemma u12_empty_file_raises (fs : FS) (path : string) (T : gset string)
    (wd : string) :
  fs !! path = Some "" →
  Forall well_formed (readlines "")
  ∧ Forall (λ line, transcript_id line ∉ T) (readlines "")
  ∧ U12.check_and_write_u12_file (Some path) T wd fs
    = (Raise (ValueError (U12.msg_empty path)), fs).
Proof.
  intros Hfs. repeat split; [constructor..|].
  by rewrite (u12_run_passes fs path "" T wd Hfs) by constructor.
Qed.

(** Lines that were retained once are all retained again. *)
Lemma retained_idem (T : gset string) (lines : list string) :
  retained T (retained T lines) = retained T lines.
Proof. unfold retained. by apply list_filter_filter_l. Qed.

Lemma retained_passes (T : gset string) (lines : list string) :
  Forall (passes T) lines → Forall (passes T) (retained T lines).
Proof.
  rewrite !Forall_forall. intros Hall line [Hin _]%retained_in. by apply Hall.
Qed.

Lemma retained_readlines (T : gset string) (text : string) :
  readlines (join "" (retained T (readlines text))) = retained T (readlines text).
Proof.
  apply readlines_join.
  apply (lines_wf_sublist _ (readlines text)); [|apply readlines_wf].
  apply sublist_filter.
Qed.

(** C9. Filtering is idempotent: after a successful run, a run on the file
    it wrote, with the same transcript set and working directory, succeeds
    with the same path and leaves the store, the output file included, as
    it was. *)
Theorem u12_filter_idempotent (u12_arg : option string) (T : gset string)
    (wd : string) (fs fs' : FS) (out : string) :
  U12.check_and_write_u12_file u12_arg T wd fs = (Ok (Some out), fs') →
  U12.check_and_write_u12_file (Some out) T wd fs' = (Ok (Some out), fs').
Proof.
  intros (path & text & -> & Hfs & Hpass & Hne & Hout & Hfs')%u12_run_success.
  assert (fs' !! out = Some (join "" (retained T (readlines text)))) as Hlook.
  { rewrite Hfs'. apply lookup_insert_eq. }
  rewrite (u12_run_passes fs' out _ T wd Hlook);
    rewrite retained_readlines; [|by apply retained_passes].
  rewrite retained_idem, bool_decide_eq_false_2 by done.
  rewrite <- Hout. f_equal. rewrite Hfs'. apply insert_insert_eq.
Qed.

Lemma u12_filter_idempotent_witness :
  let fs' := <["wd/u12_data.txt" :=
                 line_of ["t1"; "5"; "A"] +:+ line_of ["t2"; "12"; "D"]]>
               ({["in.u12" := u12_sample]} : FS) in
  U12.check_and_write_u12_file (Some "wd/u12_data.txt") {["t1"; "t2"]} "wd" fs'
  = (Ok (Some "wd/u12_data.txt"), fs').
Proof.
  intros fs'.
  apply (u12_filter_idempotent (Some "in.u12") {["t1"; "t2"]} "wd"
           {["in.u12" := u12_sample]} fs' "wd/u12_data.txt").
  vm_compute. reflexivity.
Defined.

(** C10. The output file is written last: a run that raises, or that has
    no U12 file to look at, leaves the store as it found it; and a run
    that changed the store had read every line of the input past the
    checks and found a line to keep. *)
Theorem u12_output_atomic (u12_arg : option string) (T : gset string)
    (wd : string) (fs fs' : FS) (r : res (option string)) :
  U12.check_and_write_u12_file u12_arg T wd fs = (r, fs') →
  ((∀ out, r ≠ Ok (Some out)) →
   fs' = fs ∧ fs' !! os_path_join wd "u12_data.txt" = fs !! os_path_join wd "u12_data.txt")
  ∧ (fs' ≠ fs →
     ∃ path text,
       u12_arg = Some path ∧ fs !! path = Some text
       ∧ Forall (passes T) (readlines text)
       ∧ retained T (readlines text) ≠ []
       ∧ r = Ok (Some (os_path_join wd "u12_data.txt"))).
Proof.
  intros Hrun.
  assert ((∀ out, r ≠ Ok (Some out)) → fs' = fs) as Hfail.
  { intros Hr. destruct r as [[out|]|e].
    - by destruct (Hr out).
    - destruct u12_arg as [path|]; [|by injection Hrun].
      revert Hrun. unfold U12.check_and_write_u12_file.
      destruct (open_read fs path); [|done].
      destruct (U12.scan _ _ _ _ _); [|done].
      by destruct (_ =? _).
    - by apply u12_run_failure in Hrun as [-> _]. }
  split.
  - intros Hr. by rewrite (Hfail Hr).
  - intros Hchanged. destruct r as [[out|]|e].
    + apply u12_run_success in Hrun
        as (path & text & -> & Hfs & Hpass & Hne & -> & _).
      by exists path, text.
    + destruct Hchanged. by apply Hfail.
    + destruct Hchanged. by apply Hfail.
Qed.

Lemma u12_output_atomic_witness :
  let fs : FS := {["in.u12" := u12_bad_exon]} in
  (U12.check_and_write_u12_file (Some "in.u12") {["t1"; "t2"]} "wd" fs).2 = fs
  ∧ fs !! "wd/u12_data.txt" = None.
Proof.
  intros fs. split; [|reflexivity].
  apply (u12_output_atomic (Some "in.u12") {["t1"; "t2"]} "wd" fs
           (U12.check_and_write_u12_file (Some "in.u12") {["t1"; "t2"]} "wd" fs).2
           (U12.check_and_write_u12_file (Some "in.u12") {["t1"; "t2"]} "wd" fs).1).
  - apply surjective_pairing.
  - intros out. vm_compute. discriminate.
Defined.

(** ** Substrings *)

Lemma startswith_app (p s : string) : startswith p (p +:+ s) = true.
Proof.
  induction p as [|c p IH]; [done|].
  rewrite append_cons. simpl. by rewrite bool_decide_eq_true_2, IH.
Qed.

Lemma contains_here (sub s : string) : contains sub (sub +:+ s) = true.
Proof.
  destruct (sub +:+ s) eqn:Heq; simpl; rewrite <- Heq, startswith_app; done.
Qed.

Lemma contains_app_r (sub a s : string) :
  contains sub s = true → contains sub (a +:+ s) = true.
Proof.
  intros Hs. induction a as [|c a IH]; [done|].
  rewrite append_cons. simpl. rewrite IH. apply orb_true_r.
Qed.

Lemma contains_middle (sub a b : string) :
  contains sub (a +:+ sub +:+ b) = true.
Proof. apply contains_app_r, contains_here. Qed.

(** ** [check_chains_classified] *)

(** C8. The check raises its error, which names the file, exactly when the
    file has at most one line; with two lines or more it returns and has
    no value. *)
Theorem chains_classified_iff (fs : FS) (path text : string) :
  fs !! path = Some text →
  (Chains.check_chains_classified path fs
     = Raise (ValueError (Chains.msg_empty path))
   ↔ length (readlines text) ≤ 1)
  ∧ (Chains.check_chains_classified path fs = Ok () ↔ 2 ≤ length (readlines text))
  ∧ contains path (Chains.msg_empty path) = true.
Proof.
  intros Hfs.
  split; [|split; [|apply contains_middle]];
    unfold Chains.check_chains_classified, Chains.has_more_than_one_line, open_read;
    rewrite Hfs; simpl;
    destruct (readlines text) as [|l1 [|l2 ls]]; simpl;
    split; intros H; try done; try lia.
Qed.

Lemma chains_classified_iff_witness :
  Chains.check_chains_classified "chains.tsv"
    {["chains.tsv" := line_of ["chain"; "class"]]}
  = Raise (ValueError (Chains.msg_empty "chains.tsv"))
  ∧ Chains.check_chains_classified "chains.tsv"
      {["chains.tsv" := line_of ["chain"; "class"] +:+ line_of ["17"; "ortholog"]]}
    = Ok ().
Proof.
  split.
  - apply (chains_classified_iff
             {["chains.tsv" := line_of ["chain"; "class"]]}
             "chains.tsv" (line_of ["chain"; "class"])).
    + reflexivity.
    + vm_compute. lia.
  - apply (chains_classified_iff
             {["chains.tsv" := line_of ["chain"; "class"] +:+ line_of ["17"; "ortholog"]]}
             "chains.tsv" (line_of ["chain"; "class"] +:+ line_of ["17"; "ortholog"])).
    + reflexivity.
    + vm_compute. lia.
Defined.

(** ** Samples of a set *)

Lemma sample_bounded (X : gset string) :
  length (take 100 (elements X)) ≤ 100
  ∧ length (take 100 (elements X)) = min 100 (size X)
  ∧ NoDup (take 100 (elements X))
  ∧ (∀ x, x ∈ take 100 (elements X) → x ∈ X).
Proof.
  rewrite length_take. repeat split.
  - lia.
  - apply (sublist_NoDup _ (elements X)); [apply NoDup_elements|apply sublist_take].
  - intros x Hx. apply elem_of_elements.
    eapply elem_of_sublist; [exact Hx|apply sublist_take].
Qed.

Lemma sample_nonempty (X : gset string) :
  X ≠ ∅ → take 100 (elements X) ≠ [].
Proof.
  intros HX Hnil. apply HX. apply leibniz_equiv, elements_empty_iff.
  destruct (elements X); [done|discriminate].
Qed.

Lemma size_pos_nonempty (X : gset string) : (0 <? size X) = true ↔ X ≠ ∅.
Proof.
  rewrite Nat.ltb_lt. split.
  - intros Hpos ->. rewrite size_empty in Hpos. lia.
  - intros HX. destruct (size X) eqn:Hsz; [|lia].
    apply size_empty_iff, leibniz_equiv in Hsz. done.
Qed.

(** ** [check_2bit_file_completeness] *)

(** The loop over the common chromosomes: it returns when the known
    lengths all agree and raises for the first one that does not. *)
Lemma check_sizes_spec (f cf : string) (idx : gmap string Z)
    (cs : gmap string (option Z)) (chroms : list string) :
  (∀ c, c ∈ chroms → is_Some (idx !! c) ∧ is_Some (cs !! c)) →
  (TwoBit.check_sizes f cf idx cs chroms = Ok ()
   ∧ ∀ c n k, c ∈ chroms → idx !! c = Some n → cs !! c = Some (Some k) → n = k)
  ∨ (∃ c n k, c ∈ chroms ∧ idx !! c = Some n ∧ cs !! c = Some (Some k) ∧ n ≠ k
       ∧ TwoBit.check_sizes f cf idx cs chroms
         = Raise (ValueError (TwoBit.msg_sizes f cf c n k))).
Proof.
  induction chroms as [|chrom rest IH]; intros Hdom.
  - left. split; [done|]. intros c n k Hc. by apply elem_of_nil in Hc.
  - destruct (Hdom chrom) as [[n Hn] [ok Hk]]; [apply list_elem_of_here|].
    assert (∀ c, c ∈ rest → is_Some (idx !! c) ∧ is_Some (cs !! c)) as Hrest.
    { intros c Hc. apply Hdom. by apply list_elem_of_further. }
    assert (ok = None ∨ ok = Some n →
            TwoBit.check_sizes f cf idx cs (chrom :: rest)
            = TwoBit.check_sizes f cf idx cs rest) as Hstep.
    { intros Hok. simpl. unfold dict_getitem. rewrite Hn, Hk. simpl.
      destruct Hok as [->| ->]; [done|]. by rewrite bool_decide_eq_true_2. }
    assert (ok = None ∨ ok = Some n →
            ∀ c n' k, c ∈ chrom :: rest →
              (c ∈ rest → idx !! c = Some n' → cs !! c = Some (Some k) → n' = k) →
              idx !! c = Some n' → cs !! c = Some (Some k) → n' = k) as Hagree.
    { intros Hok c n' k [->|Hc]%elem_of_cons Hr Hn' Hk'; [|by apply Hr].
      destruct Hok as [->| ->]; congruence. }
    destruct ok as [k|].
    + destruct (decide (n = k)) as [->|Hne].
      * rewrite Hstep by auto.
        destruct (IH Hrest) as [[Hok Hall]|(c & n' & k' & Hc & ? & ? & ? & Hr)].
        -- left. split; [done|]. intros c n' k' Hc. apply Hagree; auto.
           intros Hc'. by apply Hall.
        -- right. exists c, n', k'. repeat split; try done.
           by apply list_elem_of_further.
      * right. exists chrom, n, k. repeat split; try done; [apply list_elem_of_here|].
        simpl. unfold dict_getitem. rewrite Hn, Hk. simpl.
        by rewrite bool_decide_eq_false_2.
    + rewrite Hstep by auto.
      destruct (IH Hrest) as [[Hok Hall]|(c & n' & k' & Hc & ? & ? & ? & Hr)].
      * left. split; [done|]. intros c n' k' Hc. apply Hagree; auto.
        intros Hc'. by apply Hall.
      * right. exists c, n', k'. repeat split; try done.
        by apply list_elem_of_further.
Qed.

(** The run once the index has been read. *)
Lemma twobit_run (reader : string → res (gmap string Z)) (f : string)
    (idx : gmap string Z) (cs : gmap string (option Z)) (cf : string) :
  reader f = Ok idx →
  TwoBit.check_2bit_file_completeness reader f cs cf =
    if 0 <? size (dom cs ∖ dom idx) then
      Raise (ValueError (TwoBit.msg_missing f cf
        (join (String LF "") (take 100 (elements (dom cs ∖ dom idx))))))
    else TwoBit.check_sizes f cf idx cs (elements (dom idx ∩ dom cs)).
Proof. intros Hr. unfold TwoBit.check_2bit_file_completeness. by rewrite Hr. Qed.

(** C1. With the index read, the check raises exactly when a chromosome of
    the size map is not in the index, or a chromosome of both has a known
    length in the size map that differs from the index's; an unknown
    length is never compared.  Otherwise it returns, with no value. *)
Theorem check_2bit_raises_iff (reader : string → res (gmap string Z))
    (two_bit_file : string) (idx : gmap string Z)
    (chroms_sizes : gmap string (option Z)) (chrom_file : string) :
  reader two_bit_file = Ok idx →
  ((∃ msg, TwoBit.check_2bit_file_completeness reader two_bit_file
             chroms_sizes chrom_file = Raise (ValueError msg))
   ↔ missing_chromosome idx chroms_sizes ∨ length_mismatch idx chroms_sizes)
  ∧ (TwoBit.check_2bit_file_completeness reader two_bit_file
       chroms_sizes chrom_file = Ok ()
     ↔ ¬ (missing_chromosome idx chroms_sizes ∨ length_mismatch idx chroms_sizes)).
Proof.
  intros Hr. rewrite (twobit_run _ _ _ _ _ Hr).
  set (missing := missing_chromosome idx chroms_sizes).
  set (mismatch := length_mismatch idx chroms_sizes).
  destruct (0 <? size (dom chroms_sizes ∖ dom idx)) eqn:Hsz.
  - assert missing as Hmiss.
    { apply Nat.ltb_lt, size_pos_elem_of in Hsz as [c Hc].
      exists c. by apply elem_of_difference in Hc. }
    split; split; eauto; try done. intros Hno. destruct Hno. by left.
  - assert (¬ missing) as Hnomiss.
    { intros (c & Hc & Hnc).
      assert (dom chroms_sizes ∖ dom idx ≠ ∅) as Hne by set_solver.
      apply size_pos_nonempty in Hne. congruence. }
    destruct (check_sizes_spec two_bit_file chrom_file idx chroms_sizes
                (elements (dom idx ∩ dom chroms_sizes)))
      as [[Hok Hall]|(c & n & k & Hc & Hn & Hk & Hne & Hraise)].
    + intros c Hc. apply elem_of_elements, elem_of_intersection in Hc.
      by rewrite <- !elem_of_dom.
    + assert (¬ mismatch) as Hnomis.
      { intros (c & n & k & Hn & Hk & Hne). apply Hne.
        apply (Hall c n k); try done.
        apply elem_of_elements, elem_of_intersection.
        split; apply elem_of_dom; eauto. }
      rewrite Hok. split; split; try done; try tauto. by intros [msg ?].
    + assert mismatch as Hmis by (by exists c, n, k).
      rewrite Hraise. split; split; eauto; try done. intros Hno. destruct Hno. by right.
Qed.

Lemma check_2bit_raises_iff_witness :
  let reader : string → res (gmap string Z) :=
    λ _, Ok {["chr1" := 1000%Z; "chr2" := 500%Z]} in
  let chroms_sizes : gmap string (option Z) :=
    {["chr1" := Some 1000%Z; "chr2" := Some 501%Z]} in
  ∃ msg, TwoBit.check_2bit_file_completeness reader "genome.2bit"
           chroms_sizes "in.chain" = Raise (ValueError msg).
Proof.
  intros reader chroms_sizes.
  apply (check_2bit_raises_iff reader "genome.2bit"
           {["chr1" := 1000%Z; "chr2" := 500%Z]} chroms_sizes "in.chain").
  - reflexivity.
  - right. exists "chr2", 500%Z, 501%Z. repeat split; compute_done.
Defined.

(** An unknown length passes, a known equal length passes. *)
Example check_2bit_accepts :
  TwoBit.check_2bit_file_completeness
    (λ _, Ok {["chr1" := 1000%Z; "chr2" := 500%Z; "chrM" := 16%Z]}) "genome.2bit"
    {["chr1" := Some 1000%Z; "chr2" := None]} "in.bed" = Ok ().
Proof. vm_compute. reflexivity. Qed.

(** ** [check_isoforms_file] *)



(** The run once the file has been parsed. *)
Lemma isoforms_run (read : string → FS → res parsed_isoforms)
    (path : string) (T : gset string) (wd : string) (fs : FS)
    (g : gmap string (list string)) (m : gmap string string)
    (h : string * string) :
  path ≠ "" →
  read path fs = Ok (g, m, h) →
  Isoforms.check_isoforms_file read (Some path) T wd fs =
    if negb (size (T ∖ dom m) =? 0) then
      (Raise (ValueError (Isoforms.msg_incomplete (size (T ∖ dom m))
         (join (String LF "") (take 100 (elements (T ∖ dom m)))))), fs)
    else
      match Isoforms.write_rows m (elements (T ∩ dom m)) (header_rows T h) with
      | (Raise e, written) => (Raise e, write_file fs (isoforms_file wd) written)
      | (Ok _, written) =>
          (Ok (Some (isoforms_file wd)), write_file fs (isoforms_file wd) written)
      end.
Proof.
  intros Hpath Hread. destruct path as [|c path]; [done|].
  unfold Isoforms.check_isoforms_file. rewrite Hread.
  destruct (negb (size (T ∖ dom m) =? 0)); [done|].
  unfold header_rows. destruct (decide (h.2 ∈ T)).
  - by rewrite bool_decide_eq_true_2.
  - by rewrite bool_decide_eq_false_2.
Qed.

Lemma size_zero_subseteq (T X : gset string) :
  (size (T ∖ X) =? 0) = true ↔ T ⊆ X.
Proof.
  rewrite Nat.eqb_eq, size_empty_iff. split.
  - intros Hempty x Hx. destruct (decide (x ∈ X)) as [|Hout]; [done|].
    assert (x ∈ T ∖ X) as Hdiff by (by apply elem_of_difference).
    apply Hempty in Hdiff. by apply not_elem_of_empty in Hdiff.
  - intros Hsub x. split; [|by intros ?%not_elem_of_empty].
    intros [Hx Hout]%elem_of_difference. destruct Hout. by apply Hsub.
Qed.

Lemma isoforms_run_incomplete (read : string → FS → res parsed_isoforms)
    (path : string) (T : gset string) (wd : string) (fs : FS)
    (g : gmap string (list string)) (m : gmap string string)
    (h : string * string) :
  path ≠ "" →
  read path fs = Ok (g, m, h) →
  ¬ T ⊆ dom m →
  Isoforms.check_isoforms_file read (Some path) T wd fs =
    (Raise (ValueError (Isoforms.msg_incomplete (size (T ∖ dom m))
       (join (String LF "") (take 100 (elements (T ∖ dom m)))))), fs).
Proof.
  intros Hpath Hread Hsub. rewrite (isoforms_run _ _ _ _ _ _ _ _ Hpath Hread).
  destruct (size (T ∖ dom m) =? 0) eqn:Hsz; [|done].
  by apply size_zero_subseteq in Hsz.
Qed.







(** The example of the specification: [t3] is missing, one transcript is
    reported. *)
Example isoforms_missing_t3 :
  Isoforms.check_isoforms_file (λ _ _, Ok (∅, isoforms_short, ("g1", "t1")))
    (Some "isoforms.txt") bed_transcripts "wd" ∅
  = (Raise (ValueError (Isoforms.msg_incomplete 1 "t3")), ∅).
Proof. vm_compute. reflexivity. Qed.



(** The example of the specification: the entry of [t4] is dropped, three
    rows follow the header. *)
Example isoforms_drops_t4 :
  Isoforms.check_isoforms_file
    (λ _ _, Ok (∅, isoforms_sample, ("gene", "transcript")))
    (Some "isoforms.txt") bed_transcripts "wd" ∅
  = (Ok (Some "wd/isoforms.tsv"),
     <["wd/isoforms.tsv" :=
         line_of ["gene"; "transcript"] +:+ line_of ["g3"; "t3"]
         +:+ line_of ["g1"; "t1"] +:+ line_of ["g2"; "t2"]]> ∅).
Proof. vm_compute. reflexivity. Qed.

(** ** Completeness messages *)

Lemma contains_self (s : string) : contains s s = true.
Proof.
  rewrite <- (append_nil_r s) at 2. apply contains_here.
Qed.

Lemma missing_message_contains (f cf sample : string) :
  contains sample (TwoBit.msg_missing f cf sample) = true
  ∧ contains f (TwoBit.msg_missing f cf sample) = true
  ∧ contains cf (TwoBit.msg_missing f cf sample) = true.
Proof.
  unfold TwoBit.msg_missing. repeat split.
  - do 6 apply contains_app_r. apply contains_self.
  - apply contains_middle.
  - do 3 apply contains_app_r. apply contains_here.
Qed.

Lemma incomplete_message_contains (count : nat) (sample : string) :
  contains sample (Isoforms.msg_incomplete count sample) = true
  ∧ contains (pretty count) (Isoforms.msg_incomplete count sample) = true.
Proof.
  unfold Isoforms.msg_incomplete. split.
  - do 6 apply contains_app_r. apply contains_self.
  - apply contains_middle.
Qed.

(** C7, as the code has it.  Both completeness errors carry a sample of at
    most 100 of the offending names, joined by line feeds, at the end of
    the message.  The missing-transcripts message of [check_isoforms_file]
    also carries their number; the missing-chromosomes message of
    [check_2bit_file_completeness] names the two files instead. *)
Theorem completeness_messages :
  (∀ (reader : string → res (gmap string Z)) (two_bit_file chrom_file : string)
     (idx : gmap string Z) (chroms_sizes : gmap string (option Z)),
     reader two_bit_file = Ok idx →
     missing_chromosome idx chroms_sizes →
     ∃ sample,
       sample = take 100 (elements (dom chroms_sizes ∖ dom idx))
       ∧ 0 < length sample ≤ 100
       ∧ (∀ c, c ∈ sample → c ∈ dom chroms_sizes ∧ c ∉ dom idx)
       ∧ TwoBit.check_2bit_file_completeness reader two_bit_file
           chroms_sizes chrom_file
         = Raise (ValueError (TwoBit.msg_missing two_bit_file chrom_file
                                (join (String LF "") sample)))
       ∧ contains (join (String LF "") sample)
           (TwoBit.msg_missing two_bit_file chrom_file
              (join (String LF "") sample)) = true
       ∧ contains two_bit_file
           (TwoBit.msg_missing two_bit_file chrom_file
              (join (String LF "") sample)) = true
       ∧ contains chrom_file
           (TwoBit.msg_missing two_bit_file chrom_file
              (join (String LF "") sample)) = true)
  ∧ (∀ (read : string → FS → res parsed_isoforms) (path : string)
       (T : gset string) (wd : string) (fs : FS)
       (g : gmap string (list string)) (m : gmap string string)
       (h : string * string),
       path ≠ "" →
       read path fs = Ok (g, m, h) →
       ¬ T ⊆ dom m →
       ∃ sample,
         sample = take 100 (elements (T ∖ dom m))
         ∧ 0 < length sample ≤ 100
         ∧ (∀ t, t ∈ sample → t ∈ T ∧ t ∉ dom m)
         ∧ Isoforms.check_isoforms_file read (Some path) T wd fs
           = (Raise (ValueError (Isoforms.msg_incomplete (size (T ∖ dom m))
                                   (join (String LF "") sample))), fs)
         ∧ contains (join (String LF "") sample)
             (Isoforms.msg_incomplete (size (T ∖ dom m))
                (join (String LF "") sample)) = true
         ∧ contains (pretty (size (T ∖ dom m)))
             (Isoforms.msg_incomplete (size (T ∖ dom m))
                (join (String LF "") sample)) = true).
Proof.
  split.
  - intros reader f cf idx cs Hr (c & Hc & Hnc).
    assert (dom cs ∖ dom idx ≠ ∅) as Hne.
    { intros Hempty. apply (not_elem_of_empty (C:=gset string) c).
      rewrite <- Hempty. by apply elem_of_difference. }
    destruct (sample_bounded (dom cs ∖ dom idx)) as (Hlen & _ & _ & Hmem).
    pose proof (sample_nonempty _ Hne) as Hnil.
    pose proof (missing_message_contains f cf
                  (join (String LF "") (take 100 (elements (dom cs ∖ dom idx)))))
      as (Hc1 & Hc2 & Hc3).
    exists (take 100 (elements (dom cs ∖ dom idx))).
    split; [done|]. split; [|split; [|split; [|done]]].
    + split; [|done].
      destruct (take 100 (elements (dom cs ∖ dom idx))); [done|simpl; lia].
    + intros x Hx. by apply Hmem, elem_of_difference in Hx.
    + rewrite (twobit_run _ _ _ _ _ Hr).
      by rewrite (proj2 (size_pos_nonempty _) Hne).
  - intros read path T wd fs g m h Hpath Hread Hsub.
    assert (T ∖ dom m ≠ ∅) as Hne.
    { intros Hempty. apply Hsub, size_zero_subseteq.
      by rewrite Hempty, size_empty. }
    destruct (sample_bounded (T ∖ dom m)) as (Hlen & _ & _ & Hmem).
    pose proof (sample_nonempty _ Hne) as Hnil.
    pose proof (incomplete_message_contains (size (T ∖ dom m))
                  (join (String LF "") (take 100 (elements (T ∖ dom m)))))
      as (Hc1 & Hc2).
    exists (take 100 (elements (T ∖ dom m))).
    split; [done|]. split; [|split; [|split; [|done]]].
    + split; [|done].
      destruct (take 100 (elements (T ∖ dom m))); [done|simpl; lia].
    + intros x Hx. by apply Hmem, elem_of_difference in Hx.
    + by apply (isoforms_run_incomplete read path T wd fs g m h).
Qed.

Lemma completeness_messages_witness :
  let read : string → FS → res parsed_isoforms :=
    λ _ _, Ok (∅, isoforms_short, ("g1", "t1")) in
  ∃ sample,
    0 < length sample ≤ 100
    ∧ Isoforms.check_isoforms_file read (Some "isoforms.txt") bed_transcripts "wd" ∅
      = (Raise (ValueError (Isoforms.msg_incomplete
                  (size (bed_transcripts ∖ dom isoforms_short))
                  (join (String LF "") sample))), ∅).
Proof.
  intros read.
  destruct (proj2 completeness_messages read "isoforms.txt" bed_transcripts
              "wd" ∅ ∅ isoforms_short ("g1", "t1"))
    as (sample & _ & Hlen & _ & Hrun & _).
  - discriminate.
  - reflexivity.
  - intros Hsub. assert ("t3" ∈ dom isoforms_short) as Hin.
    { apply Hsub. compute_done. }
    revert Hin. compute_done.
  - by exists sample.
Defined.

(** C7 as stated fails for [check_2bit_file_completeness]: with three
    chromosomes missing from the index, the message lists them and names
    the files, and the number three is nowhere in it. *)
Lemma twobit_message_without_count :
  ∃ msg,
    TwoBit.check_2bit_file_completeness (λ _, Ok ∅) "genome.tb"
      three_unknown "genes.bed" = Raise (ValueError msg)
    ∧ size (dom three_unknown ∖ dom (∅ : gmap string Z)) = 3
    ∧ contains (pretty 3) msg = false.
Proof. eexists. repeat split; vm_compute; reflexivity. Qed.

(** * Further properties of the module *)

(** ** Lines and text *)

Lemma readlines_nil_iff (s : string) : readlines s = [] ↔ s = "".
Proof.
  destruct s as [|c s]; [done|]. simpl. split; [|done].
  case_decide; [done|]. by destruct (readlines s).
Qed.

(** The lines of a text put together again are the text. *)
Lemma join_readlines (s : string) : join "" (readlines s) = s.
Proof.
  induction s as [|c s IH]; [done|]. simpl. case_decide as Hc.
  - subst c. by rewrite join_empty_cons, IH.
  - destruct (readlines s) as [|l ls] eqn:Hls.
    + apply readlines_nil_iff in Hls as ->. done.
    + rewrite join_empty_cons, append_cons. rewrite join_empty_cons in IH.
      by rewrite IH.
Qed.

Lemma terminated_nonempty (s : string) : terminated s → s ≠ "".
Proof. intros (b & -> & _). by destruct b. Qed.

Lemma lines_wf_nonempty (ls : list string) :
  lines_wf ls → Forall (λ l, l ≠ "") ls.
Proof.
  induction ls as [|l ls IH]; [constructor|]. intros Hwf.
  constructor; [|by eapply IH, lines_wf_tail].
  destruct ls; [destruct Hwf as [?|[? _]]|destruct Hwf as [? _]];
    auto using terminated_nonempty.
Qed.

Lemma join_nonempty (ls : list string) :
  ls ≠ [] → Forall (λ l, l ≠ "") ls → join "" ls ≠ "".
Proof.
  destruct ls as [|l ls]; [done|]. intros _ [Hl _]%Forall_cons.
  rewrite join_empty_cons. by destruct l.
Qed.

(** ** [rstrip] and trailing whitespace *)

Lemma rstrip_blank (w : string) : all_chars isspace w = true → rstrip w = "".
Proof.
  induction w as [|c w IH]; [done|]. simpl.
  intros [Hc Hw]%andb_true_iff. by rewrite IH, Hc.
Qed.

Lemma rstrip_app_blank (s w : string) :
  all_chars isspace w = true → rstrip (s +:+ w) = rstrip s.
Proof.
  intros Hw. induction s as [|c s IH].
  - by rewrite append_nil_l, rstrip_blank.
  - rewrite append_cons. simpl. by rewrite IH.
Qed.

(** ** The U12 loop: the field count *)


Lemma passes_subseteq (T T' : gset string) (line : string) :
  T' ⊆ T → passes T line → passes T' line.
Proof. intros Hsub [Hlen Hp]. split; [done|]. intros Hin. apply Hp. by apply Hsub. Qed.

Lemma retained_subseteq (T T' : gset string) (lines : list string) :
  T' ⊆ T → retained T' (retained T lines) = retained T' lines.
Proof.
  intros Hsub. unfold retained. apply list_filter_filter_l.
  intros line. apply Hsub.
Qed.

Lemma retained_Forall (P : string → Prop) (T : gset string) (lines : list string) :
  Forall P lines → Forall P (retained T lines).
Proof.
  rewrite !Forall_forall. intros Hall line [Hin _]%retained_in. by apply Hall.
Qed.


Lemma retained_valid (T : gset string) (lines : list string) :
  Forall (passes T) lines →
  Forall (λ line, well_formed line ∧ transcript_id line ∈ T) (retained T lines).
Proof.
  rewrite !Forall_forall. intros Hall line [Hin HT]%retained_in.
  destruct (Hall line Hin) as [Hlen Hp]. destruct (Hp HT). by repeat split.
Qed.

(** ** [check_and_write_u12_file]: further theorems *)







(** X4. The file a successful run leaves is never empty, and read back
    line by line every line of it is well formed and belongs to a
    transcript of the bed file. *)
Theorem u12_output_lines_valid (u12_arg : option string) (T : gset string)
    (wd : string) (fs fs' : FS) (out : string) :
  U12.check_and_write_u12_file u12_arg T wd fs = (Ok (Some out), fs') →
  ∃ content,
    fs' !! out = Some content
    ∧ content ≠ ""
    ∧ Forall (λ line, well_formed line ∧ transcript_id line ∈ T)
        (readlines content).
Proof.
  intros (path & text & -> & Hfs & Hpass & Hne & Hout & ->)%u12_run_success.
  exists (join "" (retained T (readlines text))). split; [|split].
  - apply lookup_insert_eq.
  - apply join_nonempty; [done|]. apply lines_wf_nonempty.
    apply (lines_wf_sublist _ (readlines text)); [|apply readlines_wf].
    apply sublist_filter.
  - rewrite retained_readlines. by apply retained_valid.
Qed.

Lemma u12_output_lines_valid_witness :
  ∃ content,
    (<["wd/u12_data.txt" := line_of ["t1"; "5"; "A"]]>
       ({["in.u12" := u12_foreign_junk]} : FS)) !! "wd/u12_data.txt" = Some content
    ∧ content ≠ ""
    ∧ Forall (λ line, well_formed line ∧ transcript_id line ∈ ({["t1"]} : gset string))
        (readlines content).
Proof.
  apply (u12_output_lines_valid (Some "in.u12") {["t1"]} "wd"
           {["in.u12" := u12_foreign_junk]}).
  vm_compute. reflexivity.
Defined.

(** X5. Filters compose: after a successful run with a transcript set, a
    run on its output with a smaller set that still keeps a line gives
    what the run with the smaller set gives on the original file, the
    same path and the same store. *)
Theorem u12_refilter_subset (fs fs' : FS) (path text : string)
    (T T' : gset string) (wd out : string) :
  fs !! path = Some text →
  U12.check_and_write_u12_file (Some path) T wd fs = (Ok (Some out), fs') →
  T' ⊆ T →
  Exists (λ line, transcript_id line ∈ T') (readlines text) →
  U12.check_and_write_u12_file (Some out) T' wd fs'
  = U12.check_and_write_u12_file (Some path) T' wd fs
  ∧ U12.check_and_write_u12_file (Some path) T' wd fs
    = (Ok (Some out), <[out := join "" (retained T' (readlines text))]> fs).
Proof.
  intros Hfs Hrun Hsub Hex.
  apply u12_run_success in Hrun
    as (path' & text' & [= <-] & Hfs' & Hpass & Hne & Hout & Hstore).
  assert (text' = text) as -> by congruence.
  assert (Forall (passes T') (readlines text)) as Hpass'.
  { eapply Forall_impl; [exact Hpass|]. intros line. by apply passes_subseteq. }
  assert (U12.check_and_write_u12_file (Some path) T' wd fs
          = (Ok (Some out), <[out := join "" (retained T' (readlines text))]> fs))
    as Hdirect.
  { rewrite (u12_run_passes fs path text T' wd Hfs Hpass'), Hout.
    rewrite bool_decide_eq_false_2; [done|]. by apply retained_nonempty. }
  split; [|done]. rewrite Hdirect.
  assert (fs' !! out = Some (join "" (retained T (readlines text)))) as Hlook.
  { rewrite Hstore. apply lookup_insert_eq. }
  rewrite (u12_run_passes fs' out _ T' wd Hlook);
    rewrite retained_readlines;
    [|by apply retained_Forall].
  rewrite (retained_subseteq T T') by done.
  rewrite bool_decide_eq_false_2 by (by apply retained_nonempty).
  rewrite <- Hout. f_equal. rewrite Hstore. apply insert_insert_eq.
Qed.

Lemma u12_refilter_subset_witness :
  let fs : FS := {["in.u12" := u12_sample]} in
  let fs' : FS :=
    <["wd/u12_data.txt" := line_of ["t1"; "5"; "A"] +:+ line_of ["t2"; "12"; "D"]]> fs in
  U12.check_and_write_u12_file (Some "wd/u12_data.txt") {["t2"]} "wd" fs'
  = U12.check_and_write_u12_file (Some "in.u12") {["t2"]} "wd" fs.
Proof.
  intros fs fs'.
  apply (u12_refilter_subset fs fs' "in.u12" u12_sample {["t1"; "t2"]} {["t2"]}
           "wd" "wd/u12_data.txt").
  - reflexivity.
  - vm_compute. reflexivity.
  - apply (bool_decide_unpack _). vm_compute. exact I.
  - do 2 apply Exists_cons_tl. apply Exists_cons_hd. compute_done.
Defined.



(** X7. Whitespace at the end of a line plays no part in its verdict: the
    fields of a line followed by blanks are the fields of the line, so it
    passes, or is well formed, or belongs to a transcript, exactly as the
    line does. *)
Theorem u12_trailing_whitespace_ignored (line w : string) (T : gset string) :
  all_chars isspace w = true →
  fields (line +:+ w) = fields line
  ∧ transcript_id (line +:+ w) = transcript_id line
  ∧ (well_formed (line +:+ w) ↔ well_formed line)
  ∧ (passes T (line +:+ w) ↔ passes T line).
Proof.
  intros Hw.
  assert (fields (line +:+ w) = fields line) as Hf.
  { unfold fields. by rewrite rstrip_app_blank. }
  unfold well_formed, passes, transcript_id, field. by rewrite Hf.
Qed.

Lemma u12_trailing_whitespace_ignored_witness :
  fields ("t1" +:+ String TAB "5" +:+ String TAB "A" +:+ String TAB (String LF ""))
  = ["t1"; "5"; "A"].
Proof.
  apply (u12_trailing_whitespace_ignored
           ("t1" +:+ String TAB "5" +:+ String TAB "A")
           (String TAB (String LF "")) ∅).
  reflexivity.
Defined.

(** ** [check_2bit_file_completeness]: further theorems *)

(** The three ways a run with a readable index ends. *)
Lemma twobit_outcome (reader : string → res (gmap string Z)) (f : string)
    (idx : gmap string Z) (cs : gmap string (option Z)) (cf : string) :
  reader f = Ok idx →
  (missing_chromosome idx cs
   ∧ TwoBit.check_2bit_file_completeness reader f cs cf
     = Raise (ValueError (TwoBit.msg_missing f cf
         (join (String LF "") (take 100 (elements (dom cs ∖ dom idx)))))))
  ∨ (dom cs ⊆ dom idx ∧ ¬ length_mismatch idx cs
     ∧ TwoBit.check_2bit_file_completeness reader f cs cf = Ok ())
  ∨ (dom cs ⊆ dom idx
     ∧ ∃ c n k, idx !! c = Some n ∧ cs !! c = Some (Some k) ∧ n ≠ k
         ∧ TwoBit.check_2bit_file_completeness reader f cs cf
           = Raise (ValueError (TwoBit.msg_sizes f cf c n k))).
Proof.
  intros Hr. rewrite (twobit_run _ _ _ _ _ Hr).
  destruct (0 <? size (dom cs ∖ dom idx)) eqn:Hsz.
  - left. split; [|done].
    apply Nat.ltb_lt, size_pos_elem_of in Hsz as [c Hc].
    exists c. by apply elem_of_difference in Hc.
  - right.
    assert (dom cs ⊆ dom idx) as Hsub.
    { apply size_zero_subseteq, Nat.eqb_eq. apply Nat.ltb_ge in Hsz. lia. }
    destruct (check_sizes_spec f cf idx cs (elements (dom idx ∩ dom cs)))
      as [[Hok Hall]|(c & n & k & Hc & Hn & Hk & Hne & Hraise)].
    + intros c Hc. apply elem_of_elements, elem_of_intersection in Hc.
      by rewrite <- !elem_of_dom.
    + left. repeat split; [done| |done].
      intros (c & n & k & Hn & Hk & Hne). apply Hne.
      apply (Hall c n k); try done.
      apply elem_of_elements, elem_of_intersection.
      split; apply elem_of_dom; eauto.
    + right. split; [done|]. by exists c, n, k.
Qed.

Lemma sizes_message_contains (f cf c : string) (n k : Z) :
  contains c (TwoBit.msg_sizes f cf c n k) = true
  ∧ contains (pretty n) (TwoBit.msg_sizes f cf c n k) = true
  ∧ contains (pretty k) (TwoBit.msg_sizes f cf c n k) = true.
Proof.
  unfold TwoBit.msg_sizes. repeat split.
  - do 5 apply contains_app_r. apply contains_here.
  - do 8 apply contains_app_r. apply contains_here.
  - do 10 apply contains_app_r. apply contains_self.
Qed.

(** X8. With every chromosome of the size map in the index, a known length
    that differs from the index's makes the run raise the size error for
    a chromosome whose lengths really differ; the message holds that
    chromosome's name and both lengths. *)
Theorem twobit_size_mismatch_reported (reader : string → res (gmap string Z))
    (two_bit_file chrom_file : string) (idx : gmap string Z)
    (chroms_sizes : gmap string (option Z)) :
  reader two_bit_file = Ok idx →
  dom chroms_sizes ⊆ dom idx →
  length_mismatch idx chroms_sizes →
  ∃ c n k,
    idx !! c = Some n ∧ chroms_sizes !! c = Some (Some k) ∧ n ≠ k
    ∧ TwoBit.check_2bit_file_completeness reader two_bit_file
        chroms_sizes chrom_file
      = Raise (ValueError (TwoBit.msg_sizes two_bit_file chrom_file c n k))
    ∧ contains c (TwoBit.msg_sizes two_bit_file chrom_file c n k) = true
    ∧ contains (pretty n) (TwoBit.msg_sizes two_bit_file chrom_file c n k) = true
    ∧ contains (pretty k) (TwoBit.msg_sizes two_bit_file chrom_file c n k) = true.
Proof.
  intros Hr Hsub Hmis.
  destruct (twobit_outcome reader two_bit_file idx chroms_sizes chrom_file Hr)
    as [[(c & Hc & Hnc) _]|[(_ & Hno & _)|(_ & c & n & k & Hn & Hk & Hne & Hrun)]].
  - destruct Hnc. by apply Hsub.
  - done.
  - exists c, n, k.
    destruct (sizes_message_contains two_bit_file chrom_file c n k)
      as (? & ? & ?).
    done.
Qed.

Lemma twobit_size_mismatch_reported_witness :
  ∃ c n k,
    TwoBit.check_2bit_file_completeness
      (λ _, Ok {["chr1" := 1000%Z; "chr2" := 500%Z]}) "genome.2bit"
      {["chr1" := Some 1000%Z; "chr2" := Some 501%Z]} "in.chain"
    = Raise (ValueError (TwoBit.msg_sizes "genome.2bit" "in.chain" c n k)).
Proof.
  destruct (twobit_size_mismatch_reported
              (λ _, Ok {["chr1" := 1000%Z; "chr2" := 500%Z]})
              "genome.2bit" "in.chain" {["chr1" := 1000%Z; "chr2" := 500%Z]}
              {["chr1" := Some 1000%Z; "chr2" := Some 501%Z]})
    as (c & n & k & _ & _ & _ & Hrun & _).
  - reflexivity.
  - apply (bool_decide_unpack _). vm_compute. exact I.
  - exists "chr2", 500%Z, 501%Z. repeat split; compute_done.
  - by exists c, n, k.
Defined.

(** X9. Sequences of the index that the size map does not mention are
    harmless: a size map that passes against an index passes against every
    index that extends it. *)
Theorem twobit_extra_sequences_harmless
    (reader reader' : string → res (gmap string Z))
    (two_bit_file chrom_file : string) (idx idx' : gmap string Z)
    (chroms_sizes : gmap string (option Z)) :
  reader two_bit_file = Ok idx →
  reader' two_bit_file = Ok idx' →
  idx ⊆ idx' →
  TwoBit.check_2bit_file_completeness reader two_bit_file
    chroms_sizes chrom_file = Ok () →
  TwoBit.check_2bit_file_completeness reader' two_bit_file
    chroms_sizes chrom_file = Ok ().
Proof.
  intros Hr Hr' Hext Hok.
  destruct (twobit_outcome reader two_bit_file idx chroms_sizes chrom_file Hr)
    as [[_ Hrun]|[(Hsub & Hno & _)|(_ & c & n & k & _ & _ & _ & Hrun)]];
    [congruence| |congruence].
  destruct (twobit_outcome reader' two_bit_file idx' chroms_sizes chrom_file Hr')
    as [[(c & Hc & Hnc) _]|[(_ & _ & Hrun)|(_ & c & n & k & Hn & Hk & Hne & _)]].
  - destruct Hnc. apply Hsub, elem_of_dom in Hc as [n Hn].
    apply elem_of_dom. exists n. by apply (lookup_weaken idx idx').
  - done.
  - destruct Hno.
    assert (c ∈ dom idx) as [n0 Hn0]%elem_of_dom.
    { apply Hsub, elem_of_dom. eauto. }
    exists c, n0, k. repeat split; try done.
    pose proof (lookup_weaken idx idx' c n0 Hn0 Hext). congruence.
Qed.

Lemma twobit_extra_sequences_harmless_witness :
  TwoBit.check_2bit_file_completeness
    (λ _, Ok {["chr1" := 1000%Z; "chr2" := 500%Z; "chrM" := 16%Z]}) "genome.2bit"
    {["chr1" := Some 1000%Z; "chr2" := None]} "in.bed" = Ok ().
Proof.
  apply (twobit_extra_sequences_harmless
           (λ _, Ok {["chr1" := 1000%Z; "chr2" := 500%Z]})
           (λ _, Ok {["chr1" := 1000%Z; "chr2" := 500%Z; "chrM" := 16%Z]})
           "genome.2bit" "in.bed"
           {["chr1" := 1000%Z; "chr2" := 500%Z]}
           {["chr1" := 1000%Z; "chr2" := 500%Z; "chrM" := 16%Z]}).
  - reflexivity.
  - reflexivity.
  - apply (bool_decide_unpack _). vm_compute. exact I.
  - vm_compute. reflexivity.
Defined.

(** X10. For a size map with unknown lengths only, as a bed file gives,
    nothing but presence counts: the run returns exactly when every
    chromosome of the map is in the index, whatever the index's lengths. *)
Theorem twobit_unknown_lengths_presence_only
    (reader : string → res (gmap string Z))
    (two_bit_file chrom_file : string) (idx : gmap string Z)
    (chroms_sizes : gmap string (option Z)) :
  reader two_bit_file = Ok idx →
  (∀ c len, chroms_sizes !! c = Some len → len = None) →
  TwoBit.check_2bit_file_completeness reader two_bit_file
    chroms_sizes chrom_file = Ok ()
  ↔ dom chroms_sizes ⊆ dom idx.
Proof.
  intros Hr Hunknown.
  destruct (twobit_outcome reader two_bit_file idx chroms_sizes chrom_file Hr)
    as [[(c & Hc & Hnc) Hrun]|[(Hsub & _ & Hrun)|(_ & c & n & k & _ & Hk & _)]].
  - rewrite Hrun. split; [done|]. intros Hsub. destruct Hnc. by apply Hsub.
  - by rewrite Hrun.
  - by apply Hunknown in Hk.
Qed.

Lemma twobit_unknown_lengths_presence_only_witness :
  TwoBit.check_2bit_file_completeness
    (λ _, Ok {["chrX" := 7%Z; "chrY" := 8%Z; "chrM" := 9%Z; "chr1" := 10%Z]})
    "genome.2bit" three_unknown "in.bed" = Ok ().
Proof.
  apply (twobit_unknown_lengths_presence_only
           (λ _, Ok {["chrX" := 7%Z; "chrY" := 8%Z; "chrM" := 9%Z; "chr1" := 10%Z]})
           "genome.2bit" "in.bed"
           {["chrX" := 7%Z; "chrY" := 8%Z; "chrM" := 9%Z; "chr1" := 10%Z]}
           three_unknown).
  - reflexivity.
  - intros c len Hc.
    assert (map_Forall (λ _ (v : option Z), v = None) three_unknown) as Hall
      by compute_done.
    exact (Hall c len Hc).
  - apply (bool_decide_unpack _). vm_compute. exact I.
Defined.

(** ** [check_isoforms_file]: a further theorem *)




(** ** [check_chains_classified]: a further theorem *)

Lemma readlines_two_iff (text : string) :
  2 ≤ length (readlines text)
  ↔ ∃ a b, text = a +:+ String LF b ∧ b ≠ "".
Proof.
  split.
  - intros Hlen.
    destruct (readlines text) as [|l1 [|l2 ls]] eqn:Hls; simpl in Hlen; try lia.
    pose proof (readlines_wf text) as Hwf. rewrite Hls in Hwf.
    destruct Hwf as [(a & -> & _) Hwf].
    exists a, (join "" (l2 :: ls)). split.
    + rewrite <- (join_readlines text), Hls, join_empty_cons.
      by rewrite append_assoc.
    + apply join_nonempty; [done|]. by apply lines_wf_nonempty.
  - intros (a & b & -> & Hb).
    assert (readlines b ≠ []) as Hnil by (by rewrite readlines_nil_iff).
    induction a as [|c a IH].
    + rewrite append_nil_l. simpl. destruct (readlines b); [done|simpl; lia].
    + rewrite append_cons. simpl. case_decide.
      * destruct (readlines (a +:+ String LF b)) eqn:Hr; [|simpl; lia].
        apply readlines_nil_iff in Hr. by destruct a.
      * destruct (readlines (a +:+ String LF b)) as [|l ls]; simpl in *; lia.
Qed.

(** X12. The classification file passes exactly when its text has a line
    feed with something after it; a single line, with or without its line
    feed, does not pass. *)
Theorem chains_pass_iff_second_line (fs : FS) (path text : string) :
  fs !! path = Some text →
  Chains.check_chains_classified path fs = Ok ()
  ↔ ∃ a b, text = a +:+ String LF b ∧ b ≠ "".
Proof.
  intros Hfs. rewrite <- readlines_two_iff.
  unfold Chains.check_chains_classified, Chains.has_more_than_one_line, open_read.
  rewrite Hfs. simpl.
  destruct (readlines text) as [|l1 [|l2 ls]]; simpl; split; intros H;
    try done; try lia.
Qed.

Lemma chains_pass_iff_second_line_witness :
  Chains.check_chains_classified "chains.tsv"
    {["chains.tsv" := line_of ["chain"; "class"] +:+ "17"]} = Ok ().
Proof.
  apply (chains_pass_iff_second_line
           {["chains.tsv" := line_of ["chain"; "class"] +:+ "17"]}
           "chains.tsv" (line_of ["chain"; "class"] +:+ "17")).
  - reflexivity.
  - exists (join (String TAB "") ["chain"; "class"]), "17". by split.
Defined.

(** ** [split] and [join] *)

Lemma split_nonempty (sep : ascii) (s : string) : split sep s ≠ [].
Proof.
  destruct s as [|c s]; [done|]. simpl. case_decide; [done|].
  by destruct (split sep s).
Qed.

Lemma join_cons_cons (sep x y : string) (l : list string) :
  join sep (x :: y :: l) = x +:+ sep +:+ join sep (y :: l).
Proof. reflexivity. Qed.

(** Splitting at a character and joining with it gives the string back. *)
Lemma join_split (sep : ascii) (s : string) :
  join (String sep "") (split sep s) = s.
Proof.
  induction s as [|c s IH]; [done|]. simpl.
  pose proof (split_nonempty sep s) as Hne.
  destruct (split sep s) as [|x l]; [done|]. case_decide as Hc.
  - subst c. rewrite join_cons_cons, IH. reflexivity.
  - destruct l as [|y l].
    + simpl in *. by rewrite IH.
    + rewrite join_cons_cons, append_cons. rewrite join_cons_cons in IH.
      by rewrite IH.
Qed.

Lemma split_char_free (sep : ascii) (s : string) :
  char_free sep s → split sep s = [s].
Proof.
  induction s as [|c s IH]; [done|]. intros [Hc Hs]. simpl.
  rewrite decide_False by done. by rewrite IH.
Qed.

Lemma split_app_sep (sep : ascii) (x t : string) :
  char_free sep x → split sep (x +:+ String sep t) = x :: split sep t.
Proof.
  induction x as [|c x IH]; intros Hx.
  - rewrite append_nil_l. simpl. by rewrite decide_True.
  - destruct Hx as [Hc Hx]. rewrite append_cons. simpl.
    rewrite decide_False by done. by rewrite IH.
Qed.

(** Joining pieces that are free of the separator and splitting again gives
    the pieces back. *)
Lemma split_join (sep : ascii) (pieces : list string) :
  pieces ≠ [] →
  Forall (char_free sep) pieces →
  split sep (join (String sep "") pieces) = pieces.
Proof.
  induction pieces as [|x pieces IH]; [done|]. intros _ [Hx Hrest]%Forall_cons.
  destruct pieces as [|y pieces].
  - by apply split_char_free.
  - rewrite join_cons_cons, append_cons, append_nil_l.
    rewrite split_app_sep by done. by rewrite IH.
Qed.

Lemma numeric_comma_free (s : string) : isnumeric s = true → char_free "," s.
Proof.
  intros Hs. assert (all_chars isnumeric_char s = true) as Hall.
  { by destruct s. }
  clear Hs. induction s as [|c s IH]; [done|].
  apply andb_true_iff in Hall as [Hc Hall]. split; [|by apply IH].
  intros ->. discriminate.
Qed.

Lemma existsb_negb_map (f : string → bool) (l : list string) :
  existsb (λ x, negb x) (map f l) = false ↔ Forall (λ p, f p = true) l.
Proof.
  induction l as [|x l IH]; simpl.
  - split; [constructor|done].
  - rewrite orb_false_iff, IH, Forall_cons, negb_false_iff. tauto.
Qed.

(** ** [check_args_correctness] *)

(** The [--cesar_buckets] value is let through exactly when it is numeric
    pieces joined by commas. *)
Lemma check_buckets_iff (a : Args.args) (value : string) :
  Args.cesar_buckets a = Some value →
  value ≠ "" →
  Args.check_buckets a = [] ↔ comma_list_of_numbers value.
Proof.
  intros Hv Hne. unfold Args.check_buckets. rewrite Hv.
  destruct value as [|c value]; [done|].
  set (v := String c value) in *.
  destruct (existsb (λ x, negb x) (map isnumeric (split "," v))) eqn:Hex.
  - split; [done|]. intros (pieces & Hp & Hall & Heq).
    assert (split "," v = pieces) as Hsplit.
    { rewrite Heq. apply split_join; [done|].
      eapply Forall_impl; [exact Hall|]. apply numeric_comma_free. }
    rewrite Hsplit in Hex.
    apply (proj2 (existsb_negb_map isnumeric pieces)) in Hall. congruence.
  - split; [|done]. intros _. exists (split "," v).
    split; [apply split_nonempty|]. split.
    + by apply existsb_negb_map.
    + symmetry. apply join_split.
Qed.

Lemma app_nil_iff {A} (l1 l2 : list A) : l1 ++ l2 = [] ↔ l1 = [] ∧ l2 = [].
Proof. destruct l1; simpl; split; intros H; try done; by destruct H. Qed.

Lemma isfile_guard (fs : FS) (path msg : string) :
  (if negb (os_path_isfile fs path) then [msg] else []) = []
  ↔ is_Some (fs !! path).
Proof.
  unfold os_path_isfile. case_bool_decide; simpl; split; intros; done.
Qed.

(** X13. [die] is never called exactly when the [--cesar_buckets] value,
    if one is given and not empty, is numeric strings joined by commas
    (no empty piece, so no comma first, last or doubled; no blank, no
    sign), and the chain file and the bed file both exist. *)
Theorem args_accepted_iff (a : Args.args) (fs : FS) :
  Args.check_args_correctness a fs = []
  ↔ (∀ value, Args.cesar_buckets a = Some value → value ≠ "" →
       comma_list_of_numbers value)
    ∧ is_Some (fs !! Args.chain_input a)
    ∧ is_Some (fs !! Args.bed_input a).
Proof.
  unfold Args.check_args_correctness.
  rewrite !app_nil_iff, !isfile_guard.
  assert (Args.check_buckets a = []
          ↔ ∀ value, Args.cesar_buckets a = Some value → value ≠ "" →
              comma_list_of_numbers value) as Hb.
  { destruct (Args.cesar_buckets a) as [value|] eqn:Hv.
    - destruct (decide (value = "")) as [->|Hne].
      + unfold Args.check_buckets. rewrite Hv. split; [|done].
        by intros _ value [= <-].
      + rewrite (check_buckets_iff a value Hv Hne). split.
        * by intros Hok value' [= <-].
        * intros Hall. by apply Hall.
    - unfold Args.check_buckets. rewrite Hv. split; [|done]. by intros _ value.
  }
  by rewrite Hb.
Qed.

Lemma args_accepted_iff_witness :
  Args.check_args_correctness sample_args
    {["in.chain" := "chain"; "in.bed" := "bed"]} = [].
Proof.
  apply (args_accepted_iff sample_args {["in.chain" := "chain"; "in.bed" := "bed"]}).
  split; [|split; compute_done].
  intros value [= <-] _. exists ["2"; "5"; "10"; "50"].
  repeat split; try done. repeat constructor.
Defined.

(** ** [check_completeness] *)





(** ** [check_and_write_u12_file]: files put end to end *)

Lemma readlines_app (a b : string) :
  endswith_char LF a = true →
  readlines (a +:+ b) = readlines a ++ readlines b.
Proof.
  induction a as [|c a IH]; [done|]. intros Hend.
  destruct a as [|d a].
  - simpl in Hend. apply bool_decide_eq_true in Hend as ->.
    rewrite append_cons, append_nil_l. reflexivity.
  - assert (endswith_char LF (String d a) = true) as Hend' by exact Hend.
    specialize (IH Hend'). rewrite append_cons.
    change (readlines (String c (String d a +:+ b)))
      with (if decide (c = LF) then String c "" :: readlines (String d a +:+ b)
            else match readlines (String d a +:+ b) with
                 | [] => [String c ""]
                 | l :: ls => String c l :: ls
                 end).
    change (readlines (String c (String d a)))
      with (if decide (c = LF) then String c "" :: readlines (String d a)
            else match readlines (String d a) with
                 | [] => [String c ""]
                 | l :: ls => String c l :: ls
                 end).
    rewrite IH. case_decide; [done|].
    destruct (readlines (String d a)) as [|l ls] eqn:Hr; [|done].
    by apply readlines_nil_iff in Hr.
Qed.

Lemma retained_app (T : gset string) (l1 l2 : list string) :
  retained T (l1 ++ l2) = retained T l1 ++ retained T l2.
Proof. unfold retained. apply filter_app. Qed.

(** X15. Filtering goes through concatenation: when two files both pass
    with contents [c1] and [c2] written, and the first ends with a line
    feed, the file made of the first followed by the second passes and
    [c1] followed by [c2] is written. *)
Theorem u12_concatenation (fs : FS) (p1 p2 p t1 t2 c1 c2 : string)
    (T : gset string) (wd out : string) :
  fs !! p1 = Some t1 →
  fs !! p2 = Some t2 →
  fs !! p = Some (t1 +:+ t2) →
  endswith_char LF t1 = true →
  U12.check_and_write_u12_file (Some p1) T wd fs = (Ok (Some out), <[out := c1]> fs) →
  U12.check_and_write_u12_file (Some p2) T wd fs = (Ok (Some out), <[out := c2]> fs) →
  U12.check_and_write_u12_file (Some p) T wd fs
  = (Ok (Some out), <[out := c1 +:+ c2]> fs).
Proof.
  intros Hp1 Hp2 Hp Hend Hrun1 Hrun2.
  apply u12_run_success in Hrun1
    as (? & text1 & [= <-] & Hfs1 & Hpass1 & Hne1 & Hout & Hst1).
  apply u12_run_success in Hrun2
    as (? & text2 & [= <-] & Hfs2 & Hpass2 & Hne2 & _ & Hst2).
  assert (text1 = t1) as -> by congruence.
  assert (text2 = t2) as -> by congruence.
  assert (c1 = join "" (retained T (readlines t1))) as ->.
  { apply (f_equal (λ m : gmap string string, m !! out)) in Hst1.
    rewrite !lookup_insert_eq in Hst1. congruence. }
  assert (c2 = join "" (retained T (readlines t2))) as ->.
  { apply (f_equal (λ m : gmap string string, m !! out)) in Hst2.
    rewrite !lookup_insert_eq in Hst2. congruence. }
  rewrite (u12_run_passes fs p (t1 +:+ t2) T wd Hp);
    rewrite (readlines_app t1 t2 Hend); [|by apply Forall_app].
  rewrite retained_app, join_empty_app, <- Hout.
  rewrite bool_decide_eq_false_2; [done|].
  intros [Hnil _]%app_nil_iff. done.
Qed.

Lemma u12_concatenation_witness :
  let fs : FS :=
    {["a.u12" := line_of ["t1"; "5"; "A"];
      "b.u12" := line_of ["tX"; "7"; "D"] +:+ line_of ["t2"; "12"; "D"];
      "ab.u12" := line_of ["t1"; "5"; "A"]
                  +:+ line_of ["tX"; "7"; "D"] +:+ line_of ["t2"; "12"; "D"]]} in
  U12.check_and_write_u12_file (Some "ab.u12") {["t1"; "t2"]} "wd" fs
  = (Ok (Some "wd/u12_data.txt"),
     <["wd/u12_data.txt" :=
         line_of ["t1"; "5"; "A"] +:+ line_of ["t2"; "12"; "D"]]> fs).
Proof.
  intros fs.
  apply (u12_concatenation fs "a.u12" "b.u12" "ab.u12"
           (line_of ["t1"; "5"; "A"])
           (line_of ["tX"; "7"; "D"] +:+ line_of ["t2"; "12"; "D"])
           (line_of ["t1"; "5"; "A"]) (line_of ["t2"; "12"; "D"])
           {["t1"; "t2"]} "wd" "wd/u12_data.txt").
  - reflexivity.
  - reflexivity.
  - vm_compute. reflexivity.
  - reflexivity.
  - vm_compute. reflexivity.
  - vm_compute. reflexivity.
Defined.
